(** * bot.py: session histories of the Telegram relay bot

    A shallow embedding of [src/bot.py].  Python lists are mutable objects
    reached through references, so the embedding keeps an explicit heap of
    list objects: [user_conversations] maps a chat id to the address of its
    list, and a local variable such as [conversation_history] holds an
    address too.  The handlers are written in a small state-and-exception
    monad, one monadic step per Python statement. *)

From Stdlib Require Import QArith.
From stdpp Require Import gmap strings list fin_maps.

Local Open Scope Z_scope.

(** ** Data *)

(** A value read from the service's answer, as Python holds it after the
    JSON is parsed: the bot passes such a value on without looking at it. *)
Inductive json :=
  | JNull
  | JBool (b : bool)
  | JNum (n : Z)
  | JStr (s : string)
  | JArr (items : list json)
  | JObj (fields : list (string * json)).

Coercion JStr : string >-> json.
Bind Scope string_scope with json.

(** A chat message, the dict [{"role": ..., "content": ...}].  The content
    of a user turn is the text of the update; the content of an assistant
    turn is whatever the answer held under ["content"]. *)
Record message := Message { role : string; content : json }.

(** Keyword arguments of [openai.ChatCompletion.create]. *)
Record request := Request {
  model : string;
  messages : list message;
  temperature : Q
}.

(** The part of the service's answer that the bot subscripts.  A field that
    is [None] is a key missing from the answer: subscripting it raises, as
    it does, with another exception, on an answer of any other shape
    (choices that are not a list, a choice or a message that is not a
    dict).  The value under ["content"] is not subscripted: it may be any
    value, [JNull] included. *)
Record reply_message := ReplyMessage { reply_content : option json }.
Record choice := Choice { choice_message : option reply_message }.
Record response := Response { choices : option (list choice) }.

(** Exceptions, all of them subclasses of Python's [Exception]. *)
Inductive exn :=
  | KeyError (key : string)
  | IndexError
  | APIError (detail : string).

(** What one call of the remote service does. *)
Inductive api_result :=
  | api_raises (e : exn)
  | api_returns (r : response).

(** Addresses of list objects. *)
Abbreviation ref := nat (only parsing).

Record state := State {
  heap : gmap nat (list message);       (* the list objects *)
  next : nat;                           (* first unused address *)
  user_conversations : gmap Z nat;      (* the global dict, line 52 *)
  outbox : list (Z * json);             (* reply_text calls, oldest first *)
  requests : list request               (* ChatCompletion.create calls *)
}.

Definition MAX_CONTEXT_MESSAGES : Z := 10.

(** ** The monad *)

Inductive outcome (A : Type) :=
  | Done (a : A) (s : state)       (* normal completion *)
  | Raised (e : exn) (s : state)   (* a Python exception is propagating *)
  | Stuck.                         (* a dangling address: no Python run does this *)
Arguments Done {A} a s.
Arguments Raised {A} e s.
Arguments Stuck {A}.

Definition M (A : Type) : Type := state → outcome A.

Definition ret {A} (a : A) : M A := λ s, Done a s.

Definition bind {A B} (m : M A) (k : A → M B) : M B :=
  λ s, match m s with
       | Done a s' => k a s'
       | Raised e s' => Raised e s'
       | Stuck => Stuck
       end.

Definition raise {A} (e : exn) : M A := λ s, Raised e s.

(** [try: body  except Exception as e: handler e]. *)
Definition try_except {A} (body : M A) (handler : exn → M A) : M A :=
  λ s, match body s with
       | Raised e s' => handler e s'
       | o => o
       end.

Declare Scope py_scope.
Delimit Scope py_scope with py.
Notation "x <- m ;; k" := (bind m (λ x, k))
  (at level 100, m at next level, right associativity) : py_scope.
Notation "m ;; k" := (bind m (λ _, k))
  (at level 100, right associativity) : py_scope.
Local Open Scope py_scope.

(** ** Primitive operations *)

Module Py.

(** [l[start:]] on a list value, with Python's treatment of a negative or
    too large [start]. *)
Definition slice_from {A} (start : Z) (l : list A) : list A :=
  let n := Z.of_nat (length l) in
  let lo := if start <? 0 then Z.max (start + n) 0 else Z.min start n in
  drop (Z.to_nat lo) l.

(** The five ways a handler changes the state. *)
Definition alloc (l : list message) (s : state) : state :=
  State (<[next s := l]> (heap s)) (S (next s))
        (user_conversations s) (outbox s) (requests s).

Definition store (r : ref) (l : list message) (s : state) : state :=
  State (<[r := l]> (heap s)) (next s)
        (user_conversations s) (outbox s) (requests s).

Definition assign (chat_id : Z) (r : ref) (s : state) : state :=
  State (heap s) (next s)
        (<[chat_id := r]> (user_conversations s)) (outbox s) (requests s).

Definition send (chat_id : Z) (text : json) (s : state) : state :=
  State (heap s) (next s) (user_conversations s)
        (outbox s ++ [(chat_id, text)]) (requests s).

Definition record (rq : request) (s : state) : state :=
  State (heap s) (next s) (user_conversations s)
        (outbox s) (requests s ++ [rq]).

(** A list display or a slice: a new list object. *)
Definition new_list (l : list message) : M ref :=
  λ s, Done (next s) (alloc l s).

(** The value of the list object at [r]. *)
Definition read (r : ref) : M (list message) :=
  λ s, match heap s !! r with
       | Some l => Done l s
       | None => Stuck
       end.

(** [r.append(m)]: changes the object in place. *)
Definition append (r : ref) (m : message) : M unit :=
  λ s, match heap s !! r with
       | Some l => Done tt (store r (l ++ [m]) s)
       | None => Stuck
       end.

(** [len(r)]. *)
Definition len (r : ref) : M Z :=
  l <- read r ;; ret (Z.of_nat (length l)).

(** [r[start:]]: a new object holding the slice. *)
Definition slice (r : ref) (start : Z) : M ref :=
  l <- read r ;; new_list (slice_from start l).

(** [chat_id in user_conversations]. *)
Definition contains (chat_id : Z) : M bool :=
  λ s, Done (bool_decide (is_Some (user_conversations s !! chat_id))) s.

(** [user_conversations[chat_id]]. *)
Definition getitem (chat_id : Z) : M ref :=
  λ s, match user_conversations s !! chat_id with
       | Some r => Done r s
       | None => Raised (KeyError "chat_id") s
       end.

(** [user_conversations[chat_id] = r]. *)
Definition setitem (chat_id : Z) (r : ref) : M unit :=
  λ s, Done tt (assign chat_id r s).

(** [await update.message.reply_text(text)]: the call is made, with
    whatever value [text] is.  What the transport does with it is not part
    of the program; no handler guards the call. *)
Definition reply_text (chat_id : Z) (text : json) : M unit :=
  λ s, Done tt (send chat_id text s).

(** [openai.ChatCompletion.create(...)]: the request is sent, and the
    service answers or the call raises. *)
Definition create (api : request → api_result) (rq : request) : M response :=
  λ s, match api rq with
       | api_raises e => Raised e (record rq s)
       | api_returns r => Done r (record rq s)
       end.

(** [d[key]] on a dict of the answer. *)
Definition item {A} (field : option A) (key : string) : M A :=
  match field with
  | Some a => ret a
  | None => raise (KeyError key)
  end.

(** [l[0]] on a list of the answer. *)
Definition first {A} (l : list A) : M A :=
  match l with
  | a :: _ => ret a
  | [] => raise IndexError
  end.

End Py.

(** ** The handlers *)

Definition welcome_text : string :=
  "Hello! I'm your AI Therapist Bot. I am here to listen and offer supportive responses.

You can talk to me about anything on your mind, and I'll do my best to help. If you need more detailed instructions, type /help.".

Definition help_text : string :=
  "Here are some commands you can use:

/start - Welcome message.
/help - This help message.
/new - Reset your conversation context.

Otherwise, just type your message, and I'll reply!".

Definition reset_text : string :=
  "Conversation context has been reset. Feel free to start anew!".

Definition apology_text : string :=
  "I'm sorry, but I'm having trouble connecting to my brain right now. Please try again later.".

Definition system_prompt : string :=
  "You are a supportive, empathetic AI therapist. You listen attentively and provide helpful, gentle, and understanding responses. You are not a medical professional, but you offer a comforting presence and coping strategies.".

Definition start_command (chat_id : Z) : M unit :=
  Py.reply_text chat_id welcome_text ;;
  known <- Py.contains chat_id ;;
  if known then ret tt
  else (r <- Py.new_list [] ;; Py.setitem chat_id r).

Definition help_command (chat_id : Z) : M unit :=
  Py.reply_text chat_id help_text.

Definition new_command (chat_id : Z) : M unit :=
  r <- Py.new_list [] ;;
  Py.setitem chat_id r ;;
  Py.reply_text chat_id reset_text.

(** [handle_message]; [api] is what the remote service does with the request
    of this run.  The two [logging] calls are left out: they write to the
    log only. *)
Definition handle_message (api : request → api_result)
    (chat_id : Z) (user_text : string) : M unit :=
  known <- Py.contains chat_id ;;
  (if known then ret tt
   else (r <- Py.new_list [] ;; Py.setitem chat_id r)) ;;
  conversation_history <- Py.getitem chat_id ;;
  Py.append conversation_history (Message "user" user_text) ;;
  n <- Py.len conversation_history ;;
  conversation_history <-
    (if MAX_CONTEXT_MESSAGES <? n
     then Py.slice conversation_history (- MAX_CONTEXT_MESSAGES)
     else ret conversation_history) ;;
  history <- Py.read conversation_history ;;
  let messages_for_openai := [Message "system" system_prompt] ++ history in
  answered <-
    try_except
      (response <- Py.create api
         (Request "gpt-3.5-turbo" messages_for_openai (7 # 10)) ;;
       cs <- Py.item (choices response) "choices" ;;
       c <- Py.first cs ;;
       m <- Py.item (choice_message c) "message" ;;
       ai_reply <- Py.item (reply_content m) "content" ;;
       ret (Some ai_reply))
      (λ e, Py.reply_text chat_id apology_text ;; ret None) ;;
  match answered with
  | None => ret tt
  | Some ai_reply =>
      Py.append conversation_history (Message "assistant" ai_reply) ;;
      r <- Py.slice conversation_history (- MAX_CONTEXT_MESSAGES) ;;
      Py.setitem chat_id r ;;
      Py.reply_text chat_id ai_reply
  end.

(** The updates that [main] registers a handler for. *)
Inductive update :=
  | Start (chat_id : Z)
  | Help (chat_id : Z)
  | New (chat_id : Z)
  | Text (chat_id : Z) (text : string) (api : request → api_result).

Definition chat_of (u : update) : Z :=
  match u with
  | Start c | Help c | New c | Text c _ _ => c
  end.

Definition dispatch (u : update) : M unit :=
  match u with
  | Start c => start_command c
  | Help c => help_command c
  | New c => new_command c
  | Text c t api => handle_message api c t
  end.

(** Polling: the updates are handled one after the other. *)
Fixpoint run_polling (us : list update) : M unit :=
  match us with
  | [] => ret tt
  | u :: us' => dispatch u ;; run_polling us'
  end.

(** The process starts with an empty dict (line 52). *)
Definition initial : state := State ∅ 0%nat ∅ [] [].

(** What reading [user_conversations[chat_id]] gives in state [s]. *)
Definition stored (s : state) (chat_id : Z) : option (list message) :=
  r ← user_conversations s !! chat_id; heap s !! r.

(** ** Specification-side definitions *)

(** What line 141 yields: the content of the first choice, when the call
    returns and every subscript finds its key. *)
Definition content_of (a : api_result) : option json :=
  match a with
  | api_raises _ => None
  | api_returns r =>
      cs ← choices r; c ← head cs; m ← choice_message c; reply_content m
  end.

(** The generated reply: the content of the first choice when it is a
    text. *)
Definition reply_of (a : api_result) : option string :=
  match content_of a with
  | Some (JStr reply) => Some reply
  | _ => None
  end.

(** Append one turn, then keep the last [MAX_CONTEXT_MESSAGES] turns. *)
Definition append_and_bound (h : list message) (t : message) : list message :=
  Py.slice_from (- MAX_CONTEXT_MESSAGES) (h ++ [t]).

Definition persona : message := Message "system" system_prompt.

(** The request of a text-message run that finds history [h] stored. *)
Definition request_for (h : list message) (text : string) : request :=
  Request "gpt-3.5-turbo"
          (persona :: append_and_bound h (Message "user" text)) (7 # 10).

(** The history a handler leaves for its own chat, from the one it found
    ([None]: the chat has no entry). *)
Definition next_history (u : update) (o : option (list message))
    : option (list message) :=
  match u with
  | Start _ => Some (default [] o)
  | Help _ => o
  | New _ => Some []
  | Text _ text api =>
      let h := default [] o in
      match content_of (api (request_for h text)) with
      | Some ai_reply =>
          Some (append_and_bound
                  (append_and_bound h (Message "user" text))
                  (Message "assistant" ai_reply))
      | None => Some (h ++ [Message "user" text])
      end
  end.

(** What a handler passes to [reply_text]. *)
Definition emitted (u : update) (o : option (list message)) : json :=
  match u with
  | Start _ => welcome_text
  | Help _ => help_text
  | New _ => reset_text
  | Text _ text api =>
      match content_of (api (request_for (default [] o) text)) with
      | Some ai_reply => ai_reply
      | None => apology_text
      end
  end.

(** The requests a handler makes. *)
Definition calls (u : update) (o : option (list message)) : list request :=
  match u with
  | Text _ text _ => [request_for (default [] o) text]
  | _ => []
  end.

(** Well-formed states: the dict holds addresses of live objects, addresses
    in use are below [next], and no two chats share a list object. *)
Definition wf (s : state) : Prop :=
  map_Forall (λ _ r, is_Some (heap s !! r)) (user_conversations s) ∧
  map_Forall (λ r _, (r < next s)%nat) (heap s) ∧
  map_Forall (λ a r, map_Forall (λ b r', r = r' → a = b)
                                (user_conversations s))
             (user_conversations s).

#[global] Instance wf_dec (s : state) : Decision (wf s).
Proof. unfold wf. apply _. Defined.

(** No chat refers to the object at [r]. *)
Definition unshared (r : ref) (s : state) : Prop :=
  ∀ b, user_conversations s !! b ≠ Some r.

(** What handling [u] in state [s] and ending in [s'] amounts to: the
    chat of [u] gets [next_history], [reply_text] is called once for it,
    the requests are those of [calls], and the other chats keep their
    histories. *)
Definition handled (u : update) (s s' : state) : Prop :=
  let a := chat_of u in
  wf s' ∧
  (∀ b, b ≠ a → stored s' b = stored s b) ∧
  stored s' a = next_history u (stored s a) ∧
  outbox s' = outbox s ++ [(a, emitted u (stored s a))] ∧
  requests s' = requests s ++ calls u (stored s a).

(** A turn of the dialogue proper, as opposed to the persona. *)
Definition spoken (m : message) : Prop :=
  role m = "user" ∨ role m = "assistant".


(** A request made of the persona and of turns of the dialogue. *)
Definition persona_first (rq : request) : Prop :=
  ∃ h, messages rq = persona :: h ∧ Forall spoken h.

(** No stored history holds anything but turns of the dialogue, and every
    request made so far starts with the persona. *)
Definition persona_free (s : state) : Prop :=
  (∀ a, Forall spoken (default [] (stored s a))) ∧
  Forall persona_first (requests s).

(** ** Stub services and runs used in the examples *)

Definition answers (text : string) : request → api_result :=
  λ _, api_returns
         (Response (Some [Choice (Some (ReplyMessage (Some (JStr text))))])).

Definition times_out : request → api_result :=
  λ _, api_raises (APIError "Request timed out").


Definition digit (i : nat) : string :=
  String (Ascii.ascii_of_nat (48 + i)) "".

(** [n] messages "0", "1", ... sent to chat [a], the [i]-th answered by
    the text "re:i". *)
Definition asks (a : Z) (n : nat) : list update :=
  (λ i, Text a (digit i) (answers ("re:" +:+ digit i))) <$> seq 0 n.

(** The history of chat [a] once a handler has run. *)
Definition history_after (o : outcome unit) (a : Z) : option (list message) :=
  match o with
  | Done _ s => stored s a
  | _ => None
  end.


(** The state the process is in after the updates [us]. *)
Definition after (us : list update) : state :=
  match run_polling us initial with
  | Done _ s => s
  | _ => initial
  end.

(** Chat 7 after five answered messages and one failed call. *)
Definition overlong : state := after (asks 7 5 ++ [Text 7 "k" times_out]).

(** Two states that agree on chat 7 and on nothing else. *)
Definition two_chats : state := after (asks 7 1 ++ asks 8 1).
Definition three_chats : state := after (asks 8 2 ++ asks 7 1 ++ asks 9 1).

(** ** Runs, update by update *)

(** The states a run goes through, each update handled in turn. *)
Inductive handled_all : list update → state → state → Prop :=
  | handled_nil s : handled_all [] s s
  | handled_cons u us s s1 s' :
      handled u s s1 → handled_all us s1 s' → handled_all (u :: us) s s'.

(** An update whose handler leaves an entry for its chat in the dict: all
    but [/help]. *)
Definition opens (u : update) : Prop :=
  match u with
  | Help _ => False
  | _ => True
  end.

(** A text message whose call yields a text reply whatever the request. *)
Definition reliable (u : update) : Prop :=
  match u with
  | Text _ _ api => ∀ rq, is_Some (reply_of (api rq))
  | _ => True
  end.

(** The texts of the text messages among [us], in order. *)
Definition texts (us : list update) : list string :=
  omap (λ u, match u with Text _ t _ => Some t | _ => None end) us.

(** Text messages [ts] for chat [a], all served by [api]. *)
Definition messages_to (a : Z) (api : request → api_result)
    (ts : list string) : list update :=
  (λ t, Text a t api) <$> ts.

(** A request with the fixed model and temperature and at most the persona
    and [MAX_CONTEXT_MESSAGES] turns. *)
Definition standard (rq : request) : Prop :=
  model rq = "gpt-3.5-turbo" ∧ temperature rq = 7 # 10 ∧
  Z.of_nat (length (messages rq)) <= 1 + MAX_CONTEXT_MESSAGES.

(** ** Slices *)

Section Slices.
Context {A : Type}.
Implicit Types (l h : list A) (t : A).

Lemma slice_from_last l :
  Py.slice_from (- MAX_CONTEXT_MESSAGES) l = drop (length l - 10) l.
Proof.
  unfold Py.slice_from, MAX_CONTEXT_MESSAGES. simpl.
  f_equal. lia.
Qed.

Lemma slice_from_short l :
  Z.of_nat (length l) <= MAX_CONTEXT_MESSAGES →
  Py.slice_from (- MAX_CONTEXT_MESSAGES) l = l.
Proof.
  intros Hlen. rewrite slice_from_last.
  unfold MAX_CONTEXT_MESSAGES in Hlen.
  replace (length l - 10)%nat with 0%nat by lia. done.
Qed.

Lemma slice_from_length l :
  length (Py.slice_from (- MAX_CONTEXT_MESSAGES) l) = (length l `min` 10)%nat.
Proof. rewrite slice_from_last, length_drop. lia. Qed.

Lemma slice_from_suffix l :
  l = take (length l - 10) l ++ Py.slice_from (- MAX_CONTEXT_MESSAGES) l.
Proof. rewrite slice_from_last. by rewrite take_drop. Qed.

Lemma slice_from_Forall (P : A → Prop) l :
  Forall P l → Forall P (Py.slice_from (- MAX_CONTEXT_MESSAGES) l).
Proof. rewrite slice_from_last. apply Forall_drop. Qed.

Lemma slice_from_snoc_last l t :
  last (Py.slice_from (- MAX_CONTEXT_MESSAGES) (l ++ [t])) = Some t.
Proof.
  rewrite slice_from_last, length_app. simpl.
  rewrite drop_app_le by lia.
  by rewrite last_snoc.
Qed.
End Slices.

(** ** The state changes, seen through [wf] and [stored] *)

Section StateChanges.
Implicit Types (s : state) (r : ref) (l : list message) (a b : Z).

Lemma wf_alloc l s : wf s → wf (Py.alloc l s).
Proof.
  intros (Hlive & Hlt & Hinj). split_and!; simpl; [| |done].
  - intros a r Ha. specialize (Hlive a r Ha). simpl in *.
    destruct Hlive as [l' Hl']. specialize (Hlt r l' Hl'). simpl in Hlt.
    rewrite lookup_insert_ne by lia. eauto.
  - intros r l' Hr. simpl.
    destruct (decide (r = next s)) as [->|Hne]; [lia|].
    rewrite lookup_insert_ne in Hr by done.
    specialize (Hlt r l' Hr). simpl in Hlt. lia.
Qed.

Lemma wf_store r l s : wf s → is_Some (heap s !! r) → wf (Py.store r l s).
Proof.
  intros (Hlive & Hlt & Hinj) [l0 Hr]. split_and!; simpl; [| |done].
  - intros a r' Ha. specialize (Hlive a r' Ha). simpl in *.
    destruct (decide (r = r')) as [->|Hne].
    + rewrite lookup_insert_eq. eauto.
    + by rewrite lookup_insert_ne.
  - intros r' l' Hr'. simpl.
    destruct (decide (r = r')) as [<-|Hne].
    + apply (Hlt r l0 Hr).
    + rewrite lookup_insert_ne in Hr' by done. apply (Hlt r' l' Hr').
Qed.

Lemma wf_assign a r s :
  wf s → is_Some (heap s !! r) → unshared r s → wf (Py.assign a r s).
Proof.
  intros (Hlive & Hlt & Hinj) Hr Hfresh. split_and!; simpl; [|done|].
  - intros b r' Hb. simpl.
    destruct (decide (a = b)) as [<-|Hne].
    + rewrite lookup_insert_eq in Hb. by simplify_eq.
    + rewrite lookup_insert_ne in Hb by done. apply (Hlive b r' Hb).
  - intros b r1 Hb c r2 Hc Heq. simpl in *. subst r2.
    destruct (decide (a = b)) as [<-|Hb'], (decide (a = c)) as [<-|Hc'];
      [done| | |].
    + rewrite lookup_insert_eq in Hb. rewrite lookup_insert_ne in Hc by done.
      simplify_eq. by destruct (Hfresh c).
    + rewrite lookup_insert_eq in Hc. rewrite lookup_insert_ne in Hb by done.
      simplify_eq. by destruct (Hfresh b).
    + rewrite lookup_insert_ne in Hb, Hc by done.
      by apply (Hinj b r1 Hb c r1 Hc).
Qed.

Lemma wf_send a t s : wf s → wf (Py.send a t s).
Proof. done. Qed.

Lemma wf_record rq s : wf s → wf (Py.record rq s).
Proof. done. Qed.

Lemma unshared_next s : wf s → unshared (next s) s.
Proof.
  intros (Hlive & Hlt & _) b Hb.
  destruct (Hlive b _ Hb) as [l Hl]. specialize (Hlt _ _ Hl). simpl in Hlt. lia.
Qed.

Lemma stored_alloc l s a : wf s → stored (Py.alloc l s) a = stored s a.
Proof.
  intros Hwf. unfold stored; simpl.
  destruct (user_conversations s !! a) as [r|] eqn:Ha; simpl; [|done].
  rewrite lookup_insert_ne; [done|].
  intros <-. by destruct (unshared_next s Hwf a).
Qed.

Lemma stored_store_own r l s a :
  user_conversations s !! a = Some r → stored (Py.store r l s) a = Some l.
Proof. intros Ha. unfold stored; simpl. rewrite Ha; simpl. apply lookup_insert_eq. Qed.

Lemma stored_store_other r l s a b :
  wf s → user_conversations s !! a = Some r → b ≠ a →
  stored (Py.store r l s) b = stored s b.
Proof.
  intros (_ & _ & Hinj) Ha Hne. unfold stored; simpl.
  destruct (user_conversations s !! b) as [r'|] eqn:Hb; simpl; [|done].
  rewrite lookup_insert_ne; [done|].
  intros <-. apply Hne. by apply (Hinj b r Hb a r Ha).
Qed.

Lemma stored_store_unshared r l s b :
  unshared r s → stored (Py.store r l s) b = stored s b.
Proof.
  intros Hfresh. unfold stored; simpl.
  destruct (user_conversations s !! b) as [r'|] eqn:Hb; simpl; [|done].
  rewrite lookup_insert_ne; [done|].
  intros <-. by destruct (Hfresh b).
Qed.

Lemma stored_assign_own a r l s :
  heap s !! r = Some l → stored (Py.assign a r s) a = Some l.
Proof. intros Hr. unfold stored; simpl. by rewrite lookup_insert_eq. Qed.

Lemma stored_assign_other a r s b :
  b ≠ a → stored (Py.assign a r s) b = stored s b.
Proof. intros Hne. unfold stored; simpl. by rewrite lookup_insert_ne. Qed.

Lemma stored_live s a r :
  wf s → user_conversations s !! a = Some r →
  ∃ l, heap s !! r = Some l ∧ stored s a = Some l.
Proof.
  intros (Hlive & _) Ha. destruct (Hlive a r Ha) as [l Hl].
  exists l. split; [done|]. unfold stored. by rewrite Ha.
Qed.

Lemma stored_absent s a :
  user_conversations s !! a = None → stored s a = None.
Proof. intros Ha. unfold stored. by rewrite Ha. Qed.
End StateChanges.

(** ** One statement at a time *)

Section Steps.
Context {B : Type}.
Implicit Types (s : state) (r : ref) (l : list message) (k : M B).

Lemma step_ret {A} (x : A) (k : A → M B) s : (y <- ret x ;; k y) s = k x s.
Proof. done. Qed.

Lemma step_assoc {A A'} (m : M A) (f : A → M A') (k : A' → M B) s :
  (y <- (x <- m ;; f x) ;; k y) s = (x <- m ;; y <- f x ;; k y) s.
Proof. unfold bind. by destruct (m s). Qed.

Lemma step_contains a (k : bool → M B) s :
  (x <- Py.contains a ;; k x) s =
  k (bool_decide (is_Some (user_conversations s !! a))) s.
Proof. done. Qed.

Lemma step_getitem a r (k : ref → M B) s :
  user_conversations s !! a = Some r →
  (x <- Py.getitem a ;; k x) s = k r s.
Proof. intros Ha. unfold bind, Py.getitem. by rewrite Ha. Qed.

Lemma step_new_list l (k : ref → M B) s :
  (x <- Py.new_list l ;; k x) s = k (next s) (Py.alloc l s).
Proof. done. Qed.

Lemma step_setitem a r k s : (Py.setitem a r ;; k) s = k (Py.assign a r s).
Proof. done. Qed.

Lemma step_reply_text a t k s : (Py.reply_text a t ;; k) s = k (Py.send a t s).
Proof. done. Qed.

Lemma step_read r l (k : list message → M B) s :
  heap s !! r = Some l → (x <- Py.read r ;; k x) s = k l s.
Proof. intros Hr. unfold bind, Py.read. by rewrite Hr. Qed.

Lemma step_len r l (k : Z → M B) s :
  heap s !! r = Some l →
  (x <- Py.len r ;; k x) s = k (Z.of_nat (length l)) s.
Proof. intros Hr. unfold Py.len, bind, Py.read. by rewrite Hr. Qed.

Lemma step_append r m l k s :
  heap s !! r = Some l →
  (Py.append r m ;; k) s = k (Py.store r (l ++ [m]) s).
Proof. intros Hr. unfold bind, Py.append. by rewrite Hr. Qed.

Lemma step_slice r z l (k : ref → M B) s :
  heap s !! r = Some l →
  (x <- Py.slice r z ;; k x) s =
  k (next s) (Py.alloc (Py.slice_from z l) s).
Proof. intros Hr. unfold Py.slice, bind, Py.read. by rewrite Hr. Qed.
End Steps.

(** Lines 135-148: the [try] block ends normally whatever the service does;
    it yields the reply, or sends the apology and yields nothing. *)
Lemma step_try {B} api rq a (k : option json → M B) s :
  (answered <-
     try_except
       (response <- Py.create api rq ;;
        cs <- Py.item (choices response) "choices" ;;
        c <- Py.first cs ;;
        m <- Py.item (choice_message c) "message" ;;
        ai_reply <- Py.item (reply_content m) "content" ;;
        ret (Some ai_reply))
       (λ e, Py.reply_text a apology_text ;; ret None) ;;
   k answered) s =
  match content_of (api rq) with
  | Some ai_reply => k (Some ai_reply) (Py.record rq s)
  | None => k None (Py.send a apology_text (Py.record rq s))
  end.
Proof.
  unfold bind at 1, try_except, bind at 1, Py.create, content_of.
  destruct (api rq) as [e|[[[|[[[[t|]]|]] cs]|]]]; reflexivity.
Qed.

Section HeapLookups.
Implicit Types (s : state) (r : ref) (l : list message).

Lemma heap_alloc_new l s : heap (Py.alloc l s) !! next s = Some l.
Proof. apply lookup_insert_eq. Qed.

Lemma heap_alloc_old l' s r l :
  wf s → heap s !! r = Some l → heap (Py.alloc l' s) !! r = Some l.
Proof.
  intros (_ & Hlt & _) Hr. simpl. rewrite lookup_insert_ne; [done|].
  specialize (Hlt r l Hr). simpl in Hlt. lia.
Qed.

Lemma heap_store_own r l s : heap (Py.store r l s) !! r = Some l.
Proof. apply lookup_insert_eq. Qed.
End HeapLookups.

(** ** The handlers, one by one *)

Section Handlers.
Implicit Types (s : state) (r : ref) (h : list message) (a b : Z).

(** Lines 151-157, from a state where the local variable refers to the
    object at [loc]: either the chat's own list or a slice of it. *)
Lemma commit_spec a loc local m reply s :
  wf s → heap s !! loc = Some local →
  user_conversations s !! a = Some loc ∨ unshared loc s →
  let kept := Py.slice_from (- MAX_CONTEXT_MESSAGES) (local ++ [m]) in
  let s' := Py.send a reply (Py.assign a (next s)
              (Py.alloc kept (Py.store loc (local ++ [m]) s))) in
  wf s' ∧ stored s' a = Some kept ∧
  (∀ b, b ≠ a → stored s' b = stored s b) ∧
  outbox s' = outbox s ++ [(a, reply)] ∧ requests s' = requests s.
Proof.
  intros Hwf Hloc Hown kept s'.
  assert (wf (Py.store loc (local ++ [m]) s)) as Hwf1
    by (apply wf_store; eauto).
  assert (wf (Py.alloc kept (Py.store loc (local ++ [m]) s))) as Hwf2
    by by apply wf_alloc.
  split_and!; [| | |done..].
  - apply wf_send, wf_assign; [done|..].
    + exists kept. apply (heap_alloc_new kept (Py.store loc (local ++ [m]) s)).
    + apply (unshared_next _ Hwf1).
  - apply stored_assign_own,
      (heap_alloc_new kept (Py.store loc (local ++ [m]) s)).
  - intros b Hb. subst s'.
    change (stored (Py.send a reply ?x) b) with (stored x b).
    rewrite stored_assign_other, stored_alloc by done.
    destruct Hown as [Hown|Hown].
    + by apply stored_store_other with a.
    + by apply stored_store_unshared.
Qed.

Lemma handle_message_known api a text s r h :
  wf s → user_conversations s !! a = Some r → heap s !! r = Some h →
  ∃ s', handle_message api a text s = Done tt s' ∧
        handled (Text a text api) s s'.
Proof.
  intros Hwf Ha Hr.
  assert (stored s a = Some h) as Hst by (unfold stored; by rewrite Ha).
  unfold handled. cbn [chat_of next_history emitted calls].
  rewrite Hst. change (default [] (Some h)) with h.
  unfold request_for, append_and_bound.
  set (u := Message "user" text).
  set (s1 := Py.store r (h ++ [u]) s).
  assert (wf s1) as Hwf1 by (apply wf_store; eauto).
  assert (∀ b, b ≠ a → stored s1 b = stored s b) as Hfr1
    by (intros b Hb; by apply stored_store_other with a).
  assert (stored s1 a = Some (h ++ [u])) as Hst1
    by by apply stored_store_own.
  unfold handle_message.
  rewrite step_contains, Ha, bool_decide_eq_true_2 by eauto.
  rewrite step_ret, (step_getitem a r) by done.
  rewrite (step_append r u h) by done. fold s1.
  rewrite (step_len r (h ++ [u])) by apply heap_store_own.
  change ([Message "system" system_prompt] ++ ?x) with (persona :: x).
  destruct (MAX_CONTEXT_MESSAGES <? Z.of_nat (length (h ++ [u]))) eqn:Hlong.
  - (* the local variable is rebound to a slice *)
    rewrite (step_slice r _ (h ++ [u])) by apply heap_store_own.
    set (local := Py.slice_from (- MAX_CONTEXT_MESSAGES) (h ++ [u])).
    set (s2 := Py.alloc local s1).
    assert (wf s2) as Hwf2 by by apply wf_alloc.
    rewrite (step_read (next s1) local) by apply heap_alloc_new.
    set (rq := Request _ (persona :: local) _).
    rewrite step_try.
    destruct (content_of (api _)) as [reply|].
    + rewrite (step_append (next s1) _ local) by apply heap_alloc_new.
      erewrite step_slice by apply heap_store_own.
      rewrite step_setitem. eexists; split; [reflexivity|].
      destruct (commit_spec a (next s1) local (Message "assistant" reply)
                  reply (Py.record rq s2)) as (? & ? & Hfr & ? & ?);
        [done|apply heap_alloc_new|right; apply (unshared_next s1 Hwf1)|].
      split_and!; [done| |done..].
      intros b Hb. etrans; [exact (Hfr b Hb)|]. rewrite <- (Hfr1 b Hb).
      apply (stored_alloc local s1 b Hwf1).
    + eexists; split; [reflexivity|].
      split_and!; [done| | |done..].
      * intros b Hb. rewrite <- (Hfr1 b Hb).
        apply (stored_alloc local s1 b Hwf1).
      * etrans; [|exact Hst1]. apply (stored_alloc local s1 a Hwf1).
  - (* the local variable still refers to the chat's own list *)
    apply Z.ltb_ge in Hlong.
    rewrite (slice_from_short (h ++ [u])) by done.
    rewrite step_ret.
    rewrite (step_read r (h ++ [u])) by apply heap_store_own.
    set (rq := Request _ (persona :: h ++ [u]) _).
    rewrite step_try.
    destruct (content_of (api _)) as [reply|].
    + rewrite (step_append r _ (h ++ [u])) by apply heap_store_own.
      erewrite step_slice by apply heap_store_own.
      rewrite step_setitem. eexists; split; [reflexivity|].
      destruct (commit_spec a r (h ++ [u]) (Message "assistant" reply)
                  reply (Py.record rq s1)) as (? & ? & Hfr & ? & ?);
        [done|apply heap_store_own|by left|].
      split_and!; [done| |done..].
      intros b Hb. etrans; [exact (Hfr b Hb)|]. exact (Hfr1 b Hb).
    + eexists; split; [reflexivity|].
      split_and!; done.
Qed.

(** Lines 110-111 (and 71-72): a chat without an entry gets an empty
    list. *)
Lemma entry_created a s :
  wf s → user_conversations s !! a = None →
  let s0 := Py.assign a (next s) (Py.alloc [] s) in
  wf s0 ∧ user_conversations s0 !! a = Some (next s) ∧
  heap s0 !! next s = Some [] ∧ stored s0 a = Some [] ∧
  ∀ b, b ≠ a → stored s0 b = stored s b.
Proof.
  intros Hwf Ha s0.
  assert (wf (Py.alloc [] s)) as Hwf1 by by apply wf_alloc.
  split_and!.
  - apply wf_assign; [done|exists []; apply heap_alloc_new|].
    apply (unshared_next s Hwf).
  - apply lookup_insert_eq.
  - apply heap_alloc_new.
  - apply stored_assign_own, heap_alloc_new.
  - intros b Hb. subst s0. rewrite stored_assign_other by done.
    by apply stored_alloc.
Qed.

Lemma handle_message_fresh api a text s :
  user_conversations s !! a = None →
  handle_message api a text s =
  handle_message api a text (Py.assign a (next s) (Py.alloc [] s)).
Proof.
  intros Ha. unfold handle_message. rewrite !step_contains.
  rewrite Ha, bool_decide_eq_false_2 by (by intros [? ?]).
  rewrite bool_decide_eq_true_2
    by (exists (next s); apply lookup_insert_eq).
  rewrite step_assoc, step_new_list, step_setitem. by rewrite step_ret.
Qed.

Lemma handle_message_spec api a text s :
  wf s →
  ∃ s', handle_message api a text s = Done tt s' ∧
        handled (Text a text api) s s'.
Proof.
  intros Hwf. destruct (user_conversations s !! a) as [r|] eqn:Ha.
  - destruct (stored_live s a r Hwf Ha) as (h & Hr & _).
    by apply handle_message_known with r h.
  - rewrite handle_message_fresh by done.
    destruct (entry_created a s Hwf Ha) as (Hwf0 & Ha0 & Hr0 & Hst0 & Hfr0).
    destruct (handle_message_known api a text _ _ _ Hwf0 Ha0 Hr0)
      as (s' & Hrun & Hwf' & Hfr & Hown & Hout & Hreq).
    exists s'. split; [done|]. unfold handled in *.
    cbn [chat_of next_history emitted calls] in *.
    rewrite Hst0 in Hown, Hout, Hreq. rewrite (stored_absent s a Ha).
    split_and!; [done| |done..].
    intros b Hb. by rewrite (Hfr b Hb), (Hfr0 b Hb).
Qed.

Lemma start_command_spec a s :
  wf s → ∃ s', start_command a s = Done tt s' ∧ handled (Start a) s s'.
Proof.
  intros Hwf. unfold start_command.
  rewrite step_reply_text, step_contains.
  change (user_conversations (Py.send a welcome_text s))
    with (user_conversations s).
  unfold handled. cbn [chat_of next_history emitted calls].
  rewrite app_nil_r.
  destruct (user_conversations s !! a) as [r|] eqn:Ha.
  - rewrite bool_decide_eq_true_2 by eauto.
    eexists; split; [reflexivity|].
    destruct (stored_live s a r Hwf Ha) as (h & _ & Hst).
    rewrite Hst. split_and!; done.
  - rewrite bool_decide_eq_false_2 by (by intros [? ?]).
    rewrite step_new_list. eexists; split; [reflexivity|].
    rewrite (stored_absent s a Ha).
    destruct (entry_created a s Hwf Ha) as (Hwf0 & _ & _ & Hst0 & Hfr0).
    split_and!; done.
Qed.

Lemma help_command_spec a s :
  wf s → ∃ s', help_command a s = Done tt s' ∧ handled (Help a) s s'.
Proof.
  intros Hwf. eexists; split; [reflexivity|].
  unfold handled. cbn [chat_of next_history emitted calls].
  rewrite app_nil_r. split_and!; done.
Qed.

Lemma new_command_spec a s :
  wf s → ∃ s', new_command a s = Done tt s' ∧ handled (New a) s s'.
Proof.
  intros Hwf. unfold new_command.
  rewrite step_new_list, step_setitem.
  eexists; split; [reflexivity|].
  unfold handled. cbn [chat_of next_history emitted calls].
  rewrite app_nil_r.
  assert (wf (Py.alloc [] s)) as Hwf1 by by apply wf_alloc.
  split_and!; [| | |done..].
  - apply wf_send, wf_assign; [done|exists []; apply heap_alloc_new|].
    apply (unshared_next s Hwf).
  - intros b Hb.
    change (stored (Py.send a reset_text ?x) b) with (stored x b).
    rewrite stored_assign_other by done. by apply stored_alloc.
  - apply stored_assign_own, heap_alloc_new.
Qed.

Lemma dispatch_spec u s :
  wf s → ∃ s', dispatch u s = Done tt s' ∧ handled u s s'.
Proof.
  destruct u; simpl.
  - apply start_command_spec.
  - apply help_command_spec.
  - apply new_command_spec.
  - apply handle_message_spec.
Qed.

Lemma wf_initial : wf initial.
Proof. compute_done. Qed.

(** Polling never stops on an exception, and keeps the state well
    formed. *)
Lemma run_polling_spec us s :
  wf s → ∃ s', run_polling us s = Done tt s' ∧ wf s'.
Proof.
  revert s. induction us as [|u us IH]; intros s Hwf.
  - by exists s.
  - destruct (dispatch_spec u s Hwf) as (s1 & Hrun & Hwf1 & _).
    destruct (IH s1 Hwf1) as (s' & Hrest & Hwf').
    exists s'. split; [|done].
    simpl. unfold bind. by rewrite Hrun.
Qed.
End Handlers.

(** ** Replies and failures *)

(** A generated reply is a content that is a text. *)
Lemma reply_of_content x reply :
  reply_of x = Some reply → content_of x = Some (JStr reply).
Proof.
  unfold reply_of. destruct (content_of x) as [[]|]; naive_solver.
Qed.


(** When line 141 yields nothing, the list object of the chat has received
    the user turn in place and nothing has trimmed it: the stored history
    is the old one and the user turn, however long the old one was. *)
Lemma failed_call_history api a text s :
  wf s →
  content_of (api (request_for (default [] (stored s a)) text)) = None →
  ∃ s', handle_message api a text s = Done tt s' ∧
        stored s' a =
          Some (default [] (stored s a) ++ [Message "user" text]) ∧
        outbox s' = outbox s ++ [(a, JStr apology_text)].
Proof.
  intros Hwf Hnone.
  destruct (handle_message_spec api a text s Hwf)
    as (s' & Hrun & _ & _ & Hown & Hout & _).
  cbn [chat_of next_history emitted] in Hown, Hout.
  rewrite Hnone in Hown, Hout. by exists s'.
Qed.

(** ** The claims *)

(** C1 (the code differs).  Chat 7 has had five answered messages, so ten
    turns are stored; the call for the sixth message times out.  The stored
    history is then the ten turns and the new user turn, eleven in all: the
    slice of line 120 went to the local variable only, and the bounded
    history the claim describes is not what is stored. *)
Theorem failed_call_stores_unbounded_history :
  let s := after (asks 7 5) in
  let u := Message "user" "k" in
  ∃ h, stored s 7 = Some h ∧ length h = 10%nat ∧
       history_after (handle_message times_out 7 "k" s) 7 = Some (h ++ [u]) ∧
       h ++ [u] ≠ append_and_bound h u.
Proof.
  eexists. split; [vm_compute; reflexivity|].
  split; [reflexivity|]. split; [vm_compute; reflexivity|].
  vm_compute. discriminate.
Qed.

(** C2 (the code differs).  After five answered messages and one message
    whose call times out, all handlers have returned and chat 7 is at rest
    with eleven stored turns, one more than [MAX_CONTEXT_MESSAGES]. *)
Theorem failed_call_breaks_bound :
  ∃ s, run_polling (asks 7 5 ++ [Text 7 "k" times_out]) initial = Done tt s ∧
       (Z.of_nat ∘ length) <$> stored s 7 = Some 11 ∧
       MAX_CONTEXT_MESSAGES < 11.
Proof.
  destruct (run_polling_spec (asks 7 5 ++ [Text 7 "k" times_out]) initial
              wf_initial) as (s & Hrun & _).
  exists s. split; [done|]. split; [|done].
  change (stored s 7) with (history_after (Done tt s) 7).
  rewrite <- Hrun. vm_compute. reflexivity.
Qed.

Lemma append_and_bound_full (h : list message) t :
  length h = 10%nat → append_and_bound h t = drop 1 h ++ [t].
Proof.
  intros Hlen. unfold append_and_bound.
  rewrite slice_from_last, length_app, Hlen. simpl length.
  change (10 + 1 - 10)%nat with 1%nat.
  rewrite drop_app_le by lia. done.
Qed.

(** C3, as stated, fails.  With ten stored turns and an answered eleventh
    message, the first stored turn afterwards is not the second-oldest
    original turn: in chat 7 after five answered messages the second-oldest
    turn is the first answer, and the history starts with the second
    question. *)
Lemma second_oldest_is_dropped :
  ¬ (∀ api a text s h reply,
       wf s → stored s a = Some h → length h = 10%nat →
       reply_of (api (request_for h text)) = Some reply →
       ∃ s' h', handle_message api a text s = Done tt s' ∧
                stored s' a = Some h' ∧ length h' = 10%nat ∧
                head h' = h !! 1%nat).
Proof.
  intros Hclaim.
  destruct (Hclaim (answers "r") 7 "k" (after (asks 7 5))
              (default [] (stored (after (asks 7 5)) 7)) "r")
    as (s' & h' & Hrun & Hst & _ & Hhead).
  - compute_done.
  - vm_compute. reflexivity.
  - vm_compute. reflexivity.
  - reflexivity.
  - change (stored s' 7) with (history_after (Done tt s') 7) in Hst.
    rewrite <- Hrun in Hst. vm_compute in Hst.
    injection Hst as <-. vm_compute in Hhead. discriminate.
Qed.

(** C3, amended.  With ten stored turns and an answered eleventh message,
    the stored history afterwards has length ten and is the original one
    without its two oldest turns, followed by the user turn and the
    assistant turn; its first element is the third-oldest original turn. *)
Theorem full_history_drops_two_oldest api a (text : string) s h reply :
  wf s → stored s a = Some h → length h = 10%nat →
  reply_of (api (request_for h text)) = Some reply →
  ∃ s' h', handle_message api a text s = Done tt s' ∧
           stored s' a = Some h' ∧
           h' = drop 2 h ++ [Message "user" text; Message "assistant" reply] ∧
           length h' = 10%nat ∧
           head h' = h !! 2%nat.
Proof.
  intros Hwf Hst Hlen Hreply.
  destruct (handle_message_spec api a text s Hwf)
    as (s' & Hrun & _ & _ & Hown & _).
  cbn [chat_of next_history] in Hown.
  rewrite Hst in Hown. change (default [] (Some h)) with h in Hown.
  rewrite (reply_of_content _ _ Hreply) in Hown.
  rewrite (append_and_bound_full h) in Hown by done.
  rewrite append_and_bound_full in Hown
    by (rewrite length_app, length_drop, Hlen; done).
  rewrite drop_app_le, drop_drop in Hown by (rewrite length_drop; lia).
  rewrite <- app_assoc in Hown. simpl in Hown.
  eexists s', _. split_and!; [done|exact Hown|done|..].
  - rewrite length_app, length_drop, Hlen. done.
  - rewrite head_lookup, lookup_app_l by (rewrite length_drop; lia).
    rewrite lookup_drop. done.
Qed.

Lemma full_history_drops_two_oldest_witness :
  wf (after (asks 7 5)) ∧
  length (default [] (stored (after (asks 7 5)) 7)) = 10%nat ∧
  ∃ s' h', handle_message (answers "r") 7 "k" (after (asks 7 5)) = Done tt s' ∧
           stored s' 7 = Some h' ∧
           h' = drop 2 (default [] (stored (after (asks 7 5)) 7))
                  ++ [Message "user" "k"; Message "assistant" "r"] ∧
           length h' = 10%nat ∧
           head h' = default [] (stored (after (asks 7 5)) 7) !! 2%nat.
Proof.
  split; [compute_done|]. split; [vm_compute; reflexivity|].
  apply (full_history_drops_two_oldest (answers "r") 7 "k" (after (asks 7 5))
           (default [] (stored (after (asks 7 5)) 7)) "r").
  - compute_done.
  - vm_compute. reflexivity.
  - vm_compute. reflexivity.
  - reflexivity.
Defined.

(** What appending and bounding does to a history of any length. *)
Lemma append_and_bound_spec (h : list message) t :
  (∃ dropped, h ++ [t] = dropped ++ append_and_bound h t ∧
              length dropped = (length h + 1 - 10)%nat) ∧
  length (append_and_bound h t) = ((length h + 1) `min` 10)%nat ∧
  last (append_and_bound h t) = Some t.
Proof.
  unfold append_and_bound. split_and!.
  - exists (take (length (h ++ [t]) - 10) (h ++ [t])). split.
    + apply slice_from_suffix.
    + rewrite length_take, length_app. simpl. lia.
  - rewrite slice_from_length, length_app. done.
  - apply slice_from_snoc_last.
Qed.


(** C4.  In a text-message run, the history sent with the request is the
    stored one with the user turn appended and trimmed from the front: it is
    a suffix of the appended history (only the oldest turns are dropped, the
    others keep their order), it ends with the new turn, and it has at
    most ten turns.  On success the history stored at line 154 is obtained
    from it and the assistant turn in the same way.  The run completes
    whatever the service does. *)
Theorem append_then_trim_is_fifo api a (text : string) s :
  wf s →
  let h := default [] (stored s a) in
  let u := Message "user" text in
  ∃ s' local,
    handle_message api a text s = Done tt s' ∧
    requests s' =
      requests s ++ [Request "gpt-3.5-turbo" (persona :: local) (7 # 10)] ∧
    (∃ dropped, h ++ [u] = dropped ++ local ∧
                length dropped = (length h + 1 - 10)%nat) ∧
    length local = ((length h + 1) `min` 10)%nat ∧
    last local = Some u ∧
    ∀ reply, reply_of (api (request_for h text)) = Some reply →
      let m := Message "assistant" reply in
      ∃ kept, stored s' a = Some kept ∧
        (∃ dropped, local ++ [m] = dropped ++ kept ∧
                    length dropped = (length local + 1 - 10)%nat) ∧
        length kept = ((length local + 1) `min` 10)%nat ∧
        last kept = Some m.
Proof.
  intros Hwf h u.
  destruct (handle_message_spec api a text s Hwf)
    as (s' & Hrun & _ & _ & Hown & _ & Hreq).
  cbn [chat_of next_history calls] in Hown, Hreq.
  exists s', (append_and_bound h u).
  destruct (append_and_bound_spec h u) as (Hsuf & Hlen & Hlast).
  split_and!; [done..|].
  intros reply Hreply m. fold h in Hown.
  rewrite (reply_of_content _ _ Hreply) in Hown.
  eexists. split; [exact Hown|]. apply append_and_bound_spec.
Qed.

Lemma append_then_trim_is_fifo_witness :
  wf (after (asks 7 5)) ∧
  ∃ s' local,
    handle_message (answers "r") 7 "k" (after (asks 7 5)) = Done tt s' ∧
    requests s' =
      requests (after (asks 7 5))
        ++ [Request "gpt-3.5-turbo" (persona :: local) (7 # 10)] ∧
    (∃ dropped,
       default [] (stored (after (asks 7 5)) 7) ++ [Message "user" "k"]
         = dropped ++ local ∧
       length dropped =
         (length (default [] (stored (after (asks 7 5)) 7)) + 1 - 10)%nat) ∧
    length local =
      ((length (default [] (stored (after (asks 7 5)) 7)) + 1) `min` 10)%nat ∧
    last local = Some (Message "user" "k") ∧
    ∀ reply,
      reply_of (answers "r"
                  (request_for (default [] (stored (after (asks 7 5)) 7)) "k"))
        = Some reply →
      ∃ kept, stored s' 7 = Some kept ∧
        (∃ dropped, local ++ [Message "assistant" reply] = dropped ++ kept ∧
                    length dropped = (length local + 1 - 10)%nat) ∧
        length kept = ((length local + 1) `min` 10)%nat ∧
        last kept = Some (Message "assistant" reply).
Proof.
  split; [compute_done|].
  apply (append_then_trim_is_fifo (answers "r") 7 "k" (after (asks 7 5))).
  compute_done.
Defined.




(** C7.  The request of a text-message run carries the fixed model name and
    temperature, and its messages are the persona followed by the current
    history, which is the stored one with the user turn appended, bounded.
    When the service returns an answer whose first choice has a message
    with a content, that content is the reply: it is what is sent to the
    chat. *)
Theorem request_is_persona_then_history api a (text : string) s :
  wf s →
  let history := append_and_bound (default [] (stored s a))
                                  (Message "user" text) in
  let rq := Request "gpt-3.5-turbo" (persona :: history) (7 # 10) in
  ∃ s',
    handle_message api a text s = Done tt s' ∧
    requests s' = requests s ++ [rq] ∧
    ∀ c cs m t,
      api rq = api_returns (Response (Some (c :: cs))) →
      choice_message c = Some m → reply_content m = Some t →
      outbox s' = outbox s ++ [(a, t)].
Proof.
  intros Hwf history rq.
  destruct (handle_message_spec api a text s Hwf)
    as (s' & Hrun & _ & _ & _ & Hout & Hreq).
  cbn [chat_of emitted calls] in Hout, Hreq.
  exists s'. split_and!; [done..|].
  intros c cs m t Hapi Hm Ht. rewrite Hout.
  change (request_for _ text) with rq. rewrite Hapi. simpl.
  rewrite Hm. simpl. by rewrite Ht.
Qed.

Lemma request_is_persona_then_history_witness :
  wf (after (asks 7 1)) ∧
  ∃ s',
    handle_message (answers "r") 7 "k" (after (asks 7 1)) = Done tt s' ∧
    requests s' =
      requests (after (asks 7 1))
        ++ [Request "gpt-3.5-turbo"
              (persona :: append_and_bound
                            (default [] (stored (after (asks 7 1)) 7))
                            (Message "user" "k"))
              (7 # 10)] ∧
    ∀ c cs m t,
      answers "r"
        (Request "gpt-3.5-turbo"
           (persona :: append_and_bound
                         (default [] (stored (after (asks 7 1)) 7))
                         (Message "user" "k"))
           (7 # 10))
        = api_returns (Response (Some (c :: cs))) →
      choice_message c = Some m → reply_content m = Some t →
      outbox s' = outbox (after (asks 7 1)) ++ [(7, t)].
Proof.
  split; [compute_done|].
  apply (request_is_persona_then_history (answers "r") 7 "k" (after (asks 7 1))).
  compute_done.
Defined.

(** ** Runs of several handlers *)

Lemma append_and_bound_spoken h t :
  Forall spoken h → spoken t → Forall spoken (append_and_bound h t).
Proof.
  intros Hh Ht. apply slice_from_Forall, Forall_app. by split; [|constructor].
Qed.

Lemma handled_persona_free u s s' :
  persona_free s → handled u s s' → persona_free s'.
Proof.
  intros [Hst Hrq] (_ & Hfr & Hown & _ & Hreq).
  assert (Forall spoken (default [] (stored s (chat_of u)))) as Hh
    by apply Hst.
  split.
  - intros b. destruct (decide (b = chat_of u)) as [->|Hb].
    + rewrite Hown. destruct u as [a|a|a|a text api]; simpl in *.
      * done.
      * done.
      * constructor.
      * destruct (content_of _); simpl.
        -- apply append_and_bound_spoken; [|by right].
           apply append_and_bound_spoken; [done|by left].
        -- apply Forall_app. split; [done|]. repeat constructor.
    + rewrite (Hfr b Hb). apply Hst.
  - rewrite Hreq. apply Forall_app. split; [done|].
    destruct u as [a|a|a|a text api]; simpl; try constructor; [|constructor].
    eexists. split; [reflexivity|].
    apply append_and_bound_spoken; [done|by left].
Qed.

Lemma run_polling_persona_free us s :
  wf s → persona_free s →
  ∃ s', run_polling us s = Done tt s' ∧ wf s' ∧ persona_free s'.
Proof.
  revert s. induction us as [|u us IH]; intros s Hwf Hfree.
  - by exists s.
  - destruct (dispatch_spec u s Hwf) as (s1 & Hrun & Hdone).
    destruct (IH s1) as (s' & Hrest & Hwf' & Hfree').
    + apply Hdone.
    + by apply handled_persona_free with u s.
    + exists s'. split; [|done]. simpl. unfold bind. by rewrite Hrun.
Qed.

(** C6.  Whatever updates the process has handled since it started, it has
    handled them all normally, every stored history consists of user and
    assistant turns only, and the persona, which is neither, has gone
    nowhere but to the head of the requests. *)
Theorem persona_is_never_stored (us : list update) :
  ∃ s, run_polling us initial = Done tt s ∧
       (∀ a, Forall spoken (default [] (stored s a))) ∧
       Forall persona_first (requests s) ∧
       ¬ spoken persona.
Proof.
  destruct (run_polling_persona_free us initial wf_initial)
    as (s & Hrun & _ & Hst & Hrq).
  - split; [|constructor]. intros a. constructor.
  - exists s. split_and!; [done..|]. by intros [|].
Qed.

(** C8.  The reset command, in any state and for any chat, with or without
    an entry, completes, leaves the chat with an empty stored history and
    sends the confirmation; a second reset does the same.  In particular a
    chat with five stored turns has none afterwards. *)
Theorem reset_empties_history :
  (∀ a s, ∃ s1 s2,
     new_command a s = Done tt s1 ∧ stored s1 a = Some [] ∧
     outbox s1 = outbox s ++ [(a, JStr reset_text)] ∧
     new_command a s1 = Done tt s2 ∧ stored s2 a = Some [] ∧
     outbox s2 = outbox s1 ++ [(a, JStr reset_text)]) ∧
  (let s5 := after (asks 7 2 ++ [Text 7 "k" times_out]) in
   length <$> stored s5 7 = Some 5%nat ∧
   length <$> history_after (new_command 7 s5) 7 = Some 0%nat).
Proof.
  split.
  - intros a s. unfold new_command.
    eexists _, _. rewrite !step_new_list, !step_setitem.
    split_and!; try reflexivity.
    + apply stored_assign_own, heap_alloc_new.
    + apply stored_assign_own, heap_alloc_new.
  - split; vm_compute; reflexivity.
Qed.

(** C9.  A handler invoked for one chat leaves the stored history of any
    other chat as it was.  It does not depend on the other chats either:
    from two states that agree on the history of the handler's chat, and
    may differ in everything else, it sends the same text, makes the same
    requests and leaves the same history for its chat. *)
Theorem sessions_are_isolated u s1 s2 b :
  wf s1 → wf s2 → b ≠ chat_of u →
  stored s1 (chat_of u) = stored s2 (chat_of u) →
  ∃ s1' s2' sent made,
    dispatch u s1 = Done tt s1' ∧ dispatch u s2 = Done tt s2' ∧
    stored s1' b = stored s1 b ∧ stored s2' b = stored s2 b ∧
    stored s1' (chat_of u) = stored s2' (chat_of u) ∧
    outbox s1' = outbox s1 ++ sent ∧ outbox s2' = outbox s2 ++ sent ∧
    requests s1' = requests s1 ++ made ∧ requests s2' = requests s2 ++ made.
Proof.
  intros Hwf1 Hwf2 Hb Hsame.
  destruct (dispatch_spec u s1 Hwf1)
    as (s1' & Hrun1 & _ & Hfr1 & Hown1 & Hout1 & Hreq1).
  destruct (dispatch_spec u s2 Hwf2)
    as (s2' & Hrun2 & _ & Hfr2 & Hown2 & Hout2 & Hreq2).
  rewrite <- Hsame in Hown2, Hout2, Hreq2.
  eexists s1', s2', _, _.
  split_and!; [done|done|by apply Hfr1|by apply Hfr2|
               by rewrite Hown1, Hown2|done..].
Qed.

Lemma sessions_are_isolated_witness :
  (wf two_chats ∧ wf three_chats ∧ 8 ≠ 7 ∧
   stored two_chats 7 = stored three_chats 7) ∧
  ∃ s1' s2' sent made,
    dispatch (Text 7 "k" (answers "r")) two_chats = Done tt s1' ∧
    dispatch (Text 7 "k" (answers "r")) three_chats = Done tt s2' ∧
    stored s1' 8 = stored two_chats 8 ∧
    stored s2' 8 = stored three_chats 8 ∧
    stored s1' 7 = stored s2' 7 ∧
    outbox s1' = outbox two_chats ++ sent ∧
    outbox s2' = outbox three_chats ++ sent ∧
    requests s1' = requests two_chats ++ made ∧
    requests s2' = requests three_chats ++ made.
Proof.
  split.
  - split_and!; [compute_done|compute_done|done|vm_compute; reflexivity].
  - apply (sessions_are_isolated (Text 7 "k" (answers "r"))
             two_chats three_chats 8).
    + compute_done.
    + compute_done.
    + done.
    + vm_compute. reflexivity.
Defined.

(** C10.  The stored history may be longer than [MAX_CONTEXT_MESSAGES]: it
    is so after five answered messages and one failed call.  Whatever its
    length, the history that line 120 produces, which is the one sent with
    the request, has at most [MAX_CONTEXT_MESSAGES] turns, and so has the
    history that line 154 stores when the call yields a reply. *)
Theorem truncation_needs_no_bound api a (text : string) s h :
  wf s → stored s a = Some h →
  (∃ s0 h0, run_polling (asks 7 5 ++ [Text 7 "k" times_out]) initial
              = Done tt s0 ∧
            stored s0 7 = Some h0 ∧
            MAX_CONTEXT_MESSAGES < Z.of_nat (length h0)) ∧
  ∃ s' local,
    handle_message api a text s = Done tt s' ∧
    local = append_and_bound h (Message "user" text) ∧
    requests s' =
      requests s ++ [Request "gpt-3.5-turbo" (persona :: local) (7 # 10)] ∧
    Z.of_nat (length local) <= MAX_CONTEXT_MESSAGES ∧
    ∀ reply, reply_of (api (request_for h text)) = Some reply →
      ∃ kept, stored s' a = Some kept ∧
              Z.of_nat (length kept) <= MAX_CONTEXT_MESSAGES.
Proof.
  intros Hwf Hst. split.
  - destruct (run_polling_spec (asks 7 5 ++ [Text 7 "k" times_out]) initial
                wf_initial) as (s0 & Hrun & Hwf0).
    assert (history_after (Done tt s0) 7 =
            Some (default [] (history_after (Done tt s0) 7))) as Hh0
      by (rewrite <- Hrun; vm_compute; reflexivity).
    eexists s0, _. split_and!; [done|exact Hh0|].
    rewrite <- Hrun. vm_compute. reflexivity.
  - destruct (handle_message_spec api a text s Hwf)
      as (s' & Hrun & _ & _ & Hown & _ & Hreq).
    cbn [chat_of next_history calls] in Hown, Hreq.
    rewrite Hst in Hown, Hreq. change (default [] (Some h)) with h in *.
    assert (∀ (l : list message) t,
              Z.of_nat (length (append_and_bound l t))
                <= MAX_CONTEXT_MESSAGES) as Hle.
    { intros l t. destruct (append_and_bound_spec l t) as (_ & -> & _).
      unfold MAX_CONTEXT_MESSAGES. lia. }
    eexists s', _. split_and!; [done|reflexivity|done|apply Hle|].
    intros reply Hreply. rewrite (reply_of_content _ _ Hreply) in Hown.
    eexists. split; [exact Hown|apply Hle].
Qed.

Lemma truncation_needs_no_bound_witness :
  (wf overlong ∧
   stored overlong 7 = Some (default [] (stored overlong 7)) ∧
   length (default [] (stored overlong 7)) = 11%nat) ∧
  (∃ s0 h0, run_polling (asks 7 5 ++ [Text 7 "k" times_out]) initial
              = Done tt s0 ∧
            stored s0 7 = Some h0 ∧
            MAX_CONTEXT_MESSAGES < Z.of_nat (length h0)) ∧
  ∃ s' local,
    handle_message (answers "r") 7 "again" overlong = Done tt s' ∧
    local = append_and_bound (default [] (stored overlong 7))
                             (Message "user" "again") ∧
    requests s' =
      requests overlong
        ++ [Request "gpt-3.5-turbo" (persona :: local) (7 # 10)] ∧
    Z.of_nat (length local) <= MAX_CONTEXT_MESSAGES ∧
    ∀ reply,
      reply_of (answers "r"
                  (request_for (default [] (stored overlong 7)) "again"))
        = Some reply →
      ∃ kept, stored s' 7 = Some kept ∧
              Z.of_nat (length kept) <= MAX_CONTEXT_MESSAGES.
Proof.
  split.
  - split_and!; [compute_done|vm_compute; reflexivity..].
  - apply (truncation_needs_no_bound (answers "r") 7 "again" overlong
             (default [] (stored overlong 7))).
    + compute_done.
    + vm_compute. reflexivity.
Defined.

(** ** Further properties of the handlers *)

Lemma run_polling_handled us s :
  wf s → ∃ s', run_polling us s = Done tt s' ∧ handled_all us s s'.
Proof.
  revert s. induction us as [|u us IH]; intros s Hwf.
  - exists s. split; [done|constructor].
  - destruct (dispatch_spec u s Hwf) as (s1 & Hrun & Hdone).
    destruct (IH s1) as (s' & Hrest & Hall); [apply Hdone|].
    exists s'. split; [|by econstructor].
    simpl. unfold bind. by rewrite Hrun.
Qed.

Lemma slice_from_twice (l : list message) t :
  Py.slice_from (- MAX_CONTEXT_MESSAGES)
    (Py.slice_from (- MAX_CONTEXT_MESSAGES) l ++ [t]) =
  Py.slice_from (- MAX_CONTEXT_MESSAGES) (l ++ [t]).
Proof.
  rewrite (slice_from_last (_ ++ [t])), (slice_from_last (l ++ [t])).
  rewrite slice_from_last, !length_app, length_drop. simpl length.
  destruct (decide (length l ≤ 10)%nat) as [Hle|Hgt].
  - replace (length l - 10)%nat with 0%nat by lia.
    rewrite drop_0, Nat.sub_0_r. done.
  - rewrite !drop_app_le by (rewrite ?length_drop; lia).
    rewrite drop_drop. do 2 f_equal. lia.
Qed.

(** X1.  When the call yields a reply, the stored history afterwards is the
    last eight turns of the old one followed by the user turn and the
    assistant turn, and the reply is what is sent. *)
Theorem answered_message_history api a (text : string) s reply :
  wf s →
  reply_of (api (request_for (default [] (stored s a)) text)) = Some reply →
  let h := default [] (stored s a) in
  ∃ s', handle_message api a text s = Done tt s' ∧
        stored s' a =
          Some (drop (length h - 8) h
                  ++ [Message "user" text; Message "assistant" reply]) ∧
        outbox s' = outbox s ++ [(a, JStr reply)].
Proof.
  intros Hwf Hreply h.
  destruct (handle_message_spec api a text s Hwf)
    as (s' & Hrun & _ & _ & Hown & Hout & _).
  cbn [chat_of next_history emitted] in Hown, Hout.
  rewrite (reply_of_content _ _ Hreply) in Hown, Hout. fold h in Hown.
  exists s'. split_and!; [done| |done].
  rewrite Hown. f_equal. unfold append_and_bound.
  rewrite slice_from_twice, <- app_assoc. simpl.
  rewrite slice_from_last, length_app. simpl length.
  replace (length h + 2 - 10)%nat with (length h - 8)%nat by lia.
  by rewrite drop_app_le by lia.
Qed.

Lemma answered_message_history_witness :
  wf overlong ∧
  ∃ s', handle_message (answers "r") 7 "again" overlong = Done tt s' ∧
        stored s' 7 =
          Some (drop (length (default [] (stored overlong 7)) - 8)
                     (default [] (stored overlong 7))
                  ++ [Message "user" "again"; Message "assistant" "r"]) ∧
        outbox s' = outbox overlong ++ [(7, JStr "r")].
Proof.
  split; [compute_done|].
  apply (answered_message_history (answers "r") 7 "again" overlong "r").
  - compute_done.
  - reflexivity.
Defined.

(** X2.  Failed calls pile up: after any number of text messages to one
    chat whose calls all fail, the stored history is the old one followed by
    one user turn per message, with nothing trimmed, and one apology has
    been sent per message. *)
Theorem unanswered_messages_accumulate api a ts s :
  wf s → (∀ rq, content_of (api rq) = None) →
  ∃ s', run_polling (messages_to a api ts) s = Done tt s' ∧
        default [] (stored s' a) =
          default [] (stored s a) ++ ((λ t : string, Message "user" t) <$> ts) ∧
        outbox s' = outbox s ++ ((λ _, (a, JStr apology_text)) <$> ts).
Proof.
  intros Hwf Hfail. revert s Hwf.
  induction ts as [|t ts IH]; intros s Hwf.
  - exists s. by rewrite !app_nil_r.
  - destruct (failed_call_history api a t s Hwf (Hfail _))
      as (s1 & Hrun & Hst & Hout).
    destruct (handle_message_spec api a t s Hwf) as (s1' & Hrun' & Hwf1 & _).
    rewrite Hrun in Hrun'. injection Hrun' as <-.
    destruct (IH s1 Hwf1) as (s' & Hrest & Hst' & Hout').
    exists s'. split_and!.
    + simpl. unfold bind. by rewrite Hrun.
    + rewrite Hst', Hst. simpl. by rewrite <- app_assoc.
    + rewrite Hout', Hout. simpl. by rewrite <- app_assoc.
Qed.

Lemma unanswered_messages_accumulate_witness :
  (wf (after (asks 7 5)) ∧ ∀ rq, content_of (times_out rq) = None) ∧
  ∃ s', run_polling (messages_to 7 times_out ["a"; "b"; "c"]%string)
          (after (asks 7 5)) = Done tt s' ∧
        default [] (stored s' 7) =
          default [] (stored (after (asks 7 5)) 7)
            ++ ((λ t : string, Message "user" t) <$> ["a"; "b"; "c"]%string) ∧
        outbox s' =
          outbox (after (asks 7 5))
            ++ ((λ _, (7, JStr apology_text)) <$> ["a"; "b"; "c"]%string).
Proof.
  split; [split; [compute_done|done]|].
  apply (unanswered_messages_accumulate times_out 7 ["a"; "b"; "c"]%string
           (after (asks 7 5))).
  - compute_done.
  - done.
Defined.

Lemma append_and_bound_length (h : list message) t :
  Z.of_nat (length (append_and_bound h t)) <= MAX_CONTEXT_MESSAGES.
Proof.
  destruct (append_and_bound_spec h t) as (_ & -> & _).
  unfold MAX_CONTEXT_MESSAGES. lia.
Qed.

Lemma handled_all_bounded us s s' :
  Forall reliable us → handled_all us s s' →
  (∀ a, Z.of_nat (length (default [] (stored s a))) <= MAX_CONTEXT_MESSAGES) →
  ∀ a, Z.of_nat (length (default [] (stored s' a))) <= MAX_CONTEXT_MESSAGES.
Proof.
  intros Hrel Hall. induction Hall as [|u us s s1 s' Hu _ IH]; [done|].
  apply Forall_cons in Hrel as [Hu_rel Hrel].
  intros Hs. apply IH; [done|]. clear IH.
  destruct Hu as (_ & Hfr & Hown & _).
  intros b. destruct (decide (b = chat_of u)) as [->|Hb];
    [|by rewrite (Hfr b Hb)].
  rewrite Hown. specialize (Hs (chat_of u)).
  destruct u as [a|a|a|a text api]; simpl in *; [done|done|done|].
  destruct (Hu_rel (request_for (default [] (stored s a)) text))
    as [reply Hreply].
  rewrite (reply_of_content _ _ Hreply).
  apply append_and_bound_length.
Qed.

(** X3.  As long as every call yields a reply, the bound holds at rest:
    after any updates, commands included, every stored history has at most
    [MAX_CONTEXT_MESSAGES] turns. *)
Theorem bound_holds_while_calls_succeed (us : list update) :
  Forall reliable us →
  ∃ s, run_polling us initial = Done tt s ∧
       ∀ a, Z.of_nat (length (default [] (stored s a)))
              <= MAX_CONTEXT_MESSAGES.
Proof.
  intros Hrel.
  destruct (run_polling_handled us initial wf_initial) as (s & Hrun & Hall).
  exists s. split; [done|].
  apply (handled_all_bounded us initial s Hrel Hall). by intros a.
Qed.

Lemma bound_holds_while_calls_succeed_witness :
  Forall reliable (Start 7 :: asks 7 6 ++ [Help 7]) ∧
  ∃ s, run_polling (Start 7 :: asks 7 6 ++ [Help 7]) initial = Done tt s ∧
       ∀ a, Z.of_nat (length (default [] (stored s a)))
              <= MAX_CONTEXT_MESSAGES.
Proof.
  assert (Forall reliable (Start 7 :: asks 7 6 ++ [Help 7])) as Hrel
    by (repeat constructor; intros rq; by eexists).
  split; [exact Hrel|].
  exact (bound_holds_while_calls_succeed _ Hrel).
Defined.

Lemma handled_all_standard us s s' :
  handled_all us s s' →
  Forall standard (requests s) → Forall standard (requests s').
Proof.
  intros Hall. induction Hall as [|u us s s1 s' Hu _ IH]; [done|].
  intros Hs. apply IH. clear IH.
  destruct Hu as (_ & _ & _ & _ & ->).
  apply Forall_app. split; [done|].
  destruct u as [a|a|a|a text api]; simpl; try constructor; [|constructor].
  split_and!; [done..|]. simpl length.
  pose proof (append_and_bound_length (default [] (stored s a))
                (Message "user" text)). lia.
Qed.

(** X4.  Every request the process ever makes, failed calls and overlong
    stored histories notwithstanding, names the model gpt-3.5-turbo, has
    temperature 0.7 and carries at most eleven messages: the persona and at
    most [MAX_CONTEXT_MESSAGES] turns. *)
Theorem every_request_is_standard (us : list update) :
  ∃ s, run_polling us initial = Done tt s ∧ Forall standard (requests s).
Proof.
  destruct (run_polling_handled us initial wf_initial) as (s & Hrun & Hall).
  exists s. split; [done|].
  apply (handled_all_standard us initial s Hall). constructor.
Qed.

Lemma handled_all_outbox us s s' :
  handled_all us s s' → (outbox s').*1 = (outbox s).*1 ++ (chat_of <$> us).
Proof.
  intros Hall. induction Hall as [|u us s s1 s' Hu _ IH].
  - by rewrite app_nil_r.
  - destruct Hu as (_ & _ & _ & Hout & _).
    rewrite IH, Hout, fmap_app, <- app_assoc. done.
Qed.

(** X5.  Every update, command or text message, is answered by exactly one
    text, sent to the chat the update came from: the chats of the texts
    sent are, in order, the chats of the updates handled. *)
Theorem one_text_per_update (us : list update) :
  ∃ s, run_polling us initial = Done tt s ∧
       (outbox s).*1 = chat_of <$> us.
Proof.
  destruct (run_polling_handled us initial wf_initial) as (s & Hrun & Hall).
  exists s. split; [done|].
  by rewrite (handled_all_outbox us initial s Hall).
Qed.

Lemma handled_all_requests us s s' :
  handled_all us s s' →
  (λ rq, last (messages rq)) <$> requests s' =
  ((λ rq, last (messages rq)) <$> requests s)
    ++ ((λ t : string, Some (Message "user" t)) <$> texts us).
Proof.
  intros Hall. induction Hall as [|u us s s1 s' Hu _ IH].
  - by rewrite app_nil_r.
  - destruct Hu as (_ & _ & _ & _ & Hreq).
    rewrite IH, Hreq, fmap_app, <- app_assoc. f_equal.
    destruct u as [a|a|a|a text api]; simpl; try done.
    f_equal.
    destruct (append_and_bound_spec (default [] (stored s a))
                (Message "user" text)) as (_ & _ & Hlast).
    destruct (append_and_bound _ _) as [|m l]; [done|].
    by rewrite last_cons, Hlast.
Qed.

(** X6.  One request is made per text message and none for a command, with
    no retry after a failure: the requests made are, in order, as many as
    the text messages handled, and each ends with the user turn of its
    message. *)
Theorem one_request_per_text_message (us : list update) :
  ∃ s, run_polling us initial = Done tt s ∧
       (λ rq, last (messages rq)) <$> requests s =
       (λ t : string, Some (Message "user" t)) <$> texts us.
Proof.
  destruct (run_polling_handled us initial wf_initial) as (s & Hrun & Hall).
  exists s. split; [done|].
  by rewrite (handled_all_requests us initial s Hall).
Qed.

(** X7.  A reset clears the context: the request of the first text message
    after [/new] carries the persona and that message only, whatever was
    stored before. *)
Theorem reset_clears_context api a (text : string) s :
  wf s →
  ∃ s1 s2,
    new_command a s = Done tt s1 ∧
    handle_message api a text s1 = Done tt s2 ∧
    requests s2 =
      requests s
        ++ [Request "gpt-3.5-turbo" [persona; Message "user" text] (7 # 10)].
Proof.
  intros Hwf.
  destruct (new_command_spec a s Hwf)
    as (s1 & Hrun1 & Hwf1 & _ & Hown1 & _ & Hreq1).
  destruct (handle_message_spec api a text s1 Hwf1)
    as (s2 & Hrun2 & _ & _ & _ & _ & Hreq2).
  cbn [chat_of next_history calls] in *.
  exists s1, s2. split_and!; [done..|].
  rewrite Hreq2, Hreq1, Hown1, app_nil_r. done.
Qed.

Lemma reset_clears_context_witness :
  wf overlong ∧
  ∃ s1 s2,
    new_command 7 overlong = Done tt s1 ∧
    handle_message (answers "r") 7 "hello" s1 = Done tt s2 ∧
    requests s2 =
      requests overlong
        ++ [Request "gpt-3.5-turbo" [persona; Message "user" "hello"] (7 # 10)].
Proof.
  split; [compute_done|].
  apply (reset_clears_context (answers "r") 7 "hello" overlong).
  compute_done.
Defined.

(** X8.  A message whose call failed stays in the context: the request of
    the next text message of the chat carries the last turns of the old
    history followed by the user turn of the failed message and the user
    turn of the new one. *)
Theorem failed_message_is_sent_again api1 api2 a (text1 text2 : string) s :
  wf s →
  content_of (api1 (request_for (default [] (stored s a)) text1)) = None →
  let h := default [] (stored s a) in
  ∃ s1 s2,
    handle_message api1 a text1 s = Done tt s1 ∧
    handle_message api2 a text2 s1 = Done tt s2 ∧
    requests s2 =
      requests s
        ++ [request_for h text1;
            Request "gpt-3.5-turbo"
              (persona ::
                 drop (length h - 8) h
                   ++ [Message "user" text1; Message "user" text2])
              (7 # 10)].
Proof.
  intros Hwf Hnone h.
  destruct (handle_message_spec api1 a text1 s Hwf)
    as (s1 & Hrun1 & Hwf1 & _ & Hown1 & _ & Hreq1).
  destruct (handle_message_spec api2 a text2 s1 Hwf1)
    as (s2 & Hrun2 & _ & _ & _ & _ & Hreq2).
  cbn [chat_of next_history calls] in *.
  rewrite Hnone in Hown1. fold h in Hown1, Hreq1.
  exists s1, s2. split_and!; [done..|].
  rewrite Hreq2, Hreq1, Hown1, <- app_assoc. simpl. do 3 f_equal.
  unfold request_for, append_and_bound. f_equal. f_equal.
  rewrite <- app_assoc. simpl.
  rewrite slice_from_last, length_app. simpl length.
  replace (length h + 2 - 10)%nat with (length h - 8)%nat by lia.
  by rewrite drop_app_le by lia.
Qed.

Lemma failed_message_is_sent_again_witness :
  (wf (after (asks 7 1)) ∧
   content_of (times_out
                 (request_for (default [] (stored (after (asks 7 1)) 7)) "a"))
     = None) ∧
  ∃ s1 s2,
    handle_message times_out 7 "a" (after (asks 7 1)) = Done tt s1 ∧
    handle_message (answers "r") 7 "b" s1 = Done tt s2 ∧
    requests s2 =
      requests (after (asks 7 1))
        ++ [request_for (default [] (stored (after (asks 7 1)) 7)) "a";
            Request "gpt-3.5-turbo"
              (persona ::
                 drop (length (default [] (stored (after (asks 7 1)) 7)) - 8)
                      (default [] (stored (after (asks 7 1)) 7))
                   ++ [Message "user" "a"; Message "user" "b"])
              (7 # 10)].
Proof.
  split; [split; [compute_done|reflexivity]|].
  apply (failed_message_is_sent_again times_out (answers "r") 7 "a" "b"
           (after (asks 7 1))).
  - compute_done.
  - reflexivity.
Defined.

(** X9.  [/start] and [/help] never discard or change a history and make
    no request.  [/start] leaves the chat with an entry, empty if it had
    none; [/help] does not even create one. *)
Theorem start_and_help_keep_histories a s :
  wf s →
  ∃ s1 s2,
    start_command a s = Done tt s1 ∧ help_command a s = Done tt s2 ∧
    stored s1 a = Some (default [] (stored s a)) ∧
    stored s2 a = stored s a ∧
    (∀ b, b ≠ a → stored s1 b = stored s b ∧ stored s2 b = stored s b) ∧
    requests s1 = requests s ∧ requests s2 = requests s ∧
    outbox s1 = outbox s ++ [(a, JStr welcome_text)] ∧
    outbox s2 = outbox s ++ [(a, JStr help_text)].
Proof.
  intros Hwf.
  destruct (start_command_spec a s Hwf)
    as (s1 & Hrun1 & _ & Hfr1 & Hown1 & Hout1 & Hreq1).
  destruct (help_command_spec a s Hwf)
    as (s2 & Hrun2 & _ & Hfr2 & Hown2 & Hout2 & Hreq2).
  cbn [chat_of next_history emitted calls] in *.
  rewrite app_nil_r in Hreq1, Hreq2.
  exists s1, s2. split_and!; try done.
  intros b Hb. split; [by apply Hfr1|by apply Hfr2].
Qed.

Lemma start_and_help_keep_histories_witness :
  wf (after (asks 7 2)) ∧
  ∃ s1 s2,
    start_command 7 (after (asks 7 2)) = Done tt s1 ∧
    help_command 7 (after (asks 7 2)) = Done tt s2 ∧
    stored s1 7 = Some (default [] (stored (after (asks 7 2)) 7)) ∧
    stored s2 7 = stored (after (asks 7 2)) 7 ∧
    (∀ b, b ≠ 7 → stored s1 b = stored (after (asks 7 2)) b ∧
                  stored s2 b = stored (after (asks 7 2)) b) ∧
    requests s1 = requests (after (asks 7 2)) ∧
    requests s2 = requests (after (asks 7 2)) ∧
    outbox s1 = outbox (after (asks 7 2)) ++ [(7, JStr welcome_text)] ∧
    outbox s2 = outbox (after (asks 7 2)) ++ [(7, JStr help_text)].
Proof.
  split; [compute_done|].
  apply (start_and_help_keep_histories 7 (after (asks 7 2))).
  compute_done.
Defined.

(** X10.  In a state reached by handling updates to completion since the
    process started, every entry of the dict refers to a list object, and
    no two chats refer to the same one: the appends in place of lines 116
    and 151 reach the history of one chat only. *)
Theorem chats_never_share_a_list (us : list update) s :
  run_polling us initial = Done tt s →
  (∀ a, is_Some (user_conversations s !! a) ↔ is_Some (stored s a)) ∧
  ∀ a b r,
    user_conversations s !! a = Some r →
    user_conversations s !! b = Some r → a = b.
Proof.
  intros Hrun.
  destruct (run_polling_spec us initial wf_initial)
    as (s0 & Hrun0 & Hlive & _ & Hinj).
  rewrite Hrun in Hrun0. injection Hrun0 as <-.
  split.
  - intros a. unfold stored.
    destruct (user_conversations s !! a) as [r|] eqn:Ha; simpl.
    + split; [intros _; apply (Hlive a r Ha)|eauto].
    + split; by intros [? ?].
  - intros a b r Ha Hb. by apply (Hinj a r Ha b r Hb).
Qed.

Lemma chats_never_share_a_list_witness :
  run_polling (asks 7 1 ++ asks 8 1) initial = Done tt two_chats ∧
  (∀ a, is_Some (user_conversations two_chats !! a)
        ↔ is_Some (stored two_chats a)) ∧
  ∀ a b r,
    user_conversations two_chats !! a = Some r →
    user_conversations two_chats !! b = Some r → a = b.
Proof.
  assert (run_polling (asks 7 1 ++ asks 8 1) initial = Done tt two_chats)
    as Hrun by (vm_compute; reflexivity).
  split; [exact Hrun|].
  exact (chats_never_share_a_list (asks 7 1 ++ asks 8 1) two_chats Hrun).
Defined.

Lemma handled_all_entries us s s' a :
  handled_all us s s' →
  is_Some (stored s' a) ↔
  is_Some (stored s a) ∨ Exists (λ u, chat_of u = a ∧ opens u) us.
Proof.
  intros Hall. induction Hall as [|u us s s1 s' Hu _ IH].
  - rewrite Exists_nil. naive_solver.
  - rewrite IH, Exists_cons. clear IH.
    destruct Hu as (_ & Hfr & Hown & _).
    destruct (decide (a = chat_of u)) as [->|Ha].
    + rewrite Hown. destruct u as [c|c|c|c text api]; simpl.
      * naive_solver.
      * naive_solver.
      * naive_solver.
      * destruct (content_of _); naive_solver.
    + rewrite (Hfr a Ha). naive_solver.
Qed.

(** X11.  The dict grows and never shrinks: the chats with an entry are
    exactly those that have sent [/start], [/new] or a text message;
    [/help] alone creates none, and nothing removes one. *)
Theorem entries_are_the_chats_seen (us : list update) (a : Z) :
  ∃ s, run_polling us initial = Done tt s ∧
       (is_Some (stored s a) ↔ Exists (λ u, chat_of u = a ∧ opens u) us).
Proof.
  destruct (run_polling_handled us initial wf_initial) as (s & Hrun & Hall).
  exists s. split; [done|].
  rewrite (handled_all_entries us initial s a Hall).
  split; [|by right]. intros [[h Hh]|]; [|done]. done.
Qed.

(** X12.  [/start] is optional: a text message is handled the same way
    whether or not the chat sent [/start] first.  The request, the text
    sent in answer and the histories left are the same; only the welcome
    text is extra. *)
Theorem start_is_optional api a (text : string) s :
  wf s →
  ∃ s0 s1 s2 sent,
    start_command a s = Done tt s0 ∧
    handle_message api a text s0 = Done tt s1 ∧
    handle_message api a text s = Done tt s2 ∧
    (∀ b, stored s1 b = stored s2 b) ∧
    requests s1 = requests s2 ∧
    outbox s1 = outbox s ++ [(a, JStr welcome_text); (a, sent)] ∧
    outbox s2 = outbox s ++ [(a, sent)].
Proof.
  intros Hwf.
  destruct (start_command_spec a s Hwf)
    as (s0 & Hrun0 & Hwf0 & Hfr0 & Hown0 & Hout0 & Hreq0).
  destruct (handle_message_spec api a text s0 Hwf0)
    as (s1 & Hrun1 & _ & Hfr1 & Hown1 & Hout1 & Hreq1).
  destruct (handle_message_spec api a text s Hwf)
    as (s2 & Hrun2 & _ & Hfr2 & Hown2 & Hout2 & Hreq2).
  cbn [chat_of next_history emitted calls] in *.
  rewrite Hown0 in Hown1, Hout1, Hreq1.
  change (default [] (Some ?x)) with x in *.
  rewrite app_nil_r in Hreq0.
  eexists s0, s1, s2, _. split_and!; [done..| | | |exact Hout2].
  - intros b. destruct (decide (b = a)) as [->|Hb].
    + by rewrite Hown1, Hown2.
    + by rewrite (Hfr1 b Hb), (Hfr2 b Hb), (Hfr0 b Hb).
  - by rewrite Hreq1, Hreq2, Hreq0.
  - rewrite Hout1, Hout0, <- app_assoc. done.
Qed.

Lemma start_is_optional_witness :
  wf initial ∧
  ∃ s0 s1 s2 sent,
    start_command 7 initial = Done tt s0 ∧
    handle_message (answers "r") 7 "hello" s0 = Done tt s1 ∧
    handle_message (answers "r") 7 "hello" initial = Done tt s2 ∧
    (∀ b, stored s1 b = stored s2 b) ∧
    requests s1 = requests s2 ∧
    outbox s1 = outbox initial ++ [(7, JStr welcome_text); (7, sent)] ∧
    outbox s2 = outbox initial ++ [(7, sent)].
Proof.
  split; [compute_done|].
  apply (start_is_optional (answers "r") 7 "hello" initial).
  compute_done.
Defined.
